(** * The Compute Unit's evaluator: [servers/cu/src/domain/lib/readState/evaluate.js]

    A shallow embedding of [evaluateWith] and of the pieces of ramda and
    hyper-async it is written with, followed by the properties of the
    reduction: error containment, short-circuiting, state carry-forward,
    the shape of the records handed to [saveEvaluation], determinism.

    JavaScript values are an inductive type whose objects are finite maps
    from property names to values; the pipeline ([Async]) is a state and
    error monad over a [World] that logs what the evaluation does to its
    surroundings: the handler invocations, the records handed to
    [saveEvaluation] and the reads of the wall clock. *)

From stdpp Require Import gmap strings list fin_maps.
From Stdlib Require Import ZArith.
From Stdlib.Strings Require Import Byte.

Open Scope Z_scope.

(** ** JavaScript values *)

Module Js.

(** Numbers are the integers (no NaN, no fractions); a [Date] is its
    epoch time. An object is the map of its own enumerable properties:
    equality of objects is equality of their properties, whatever the
    order they were written in. *)
#[warnings="-register-all"]
Inductive value : Type :=
  | VUndefined
  | VNull
  | VBool (b : bool)
  | VNum (n : Z)
  | VStr (s : string)
  | VDate (t : Z)
  | VArr (xs : list value)
  | VObj (fields : gmap string value).

(** What [if (v)] and [v && ...] test. *)
Definition truthy (v : value) : bool :=
  match v with
  | VUndefined | VNull => false
  | VBool b => b
  | VNum n => negb (n =? 0)
  | VStr s => negb (String.eqb s "")
  | VDate _ | VArr _ | VObj _ => true
  end.

(** [v[k]] for a property name [k] that no primitive, array or date
    carries: the own property of an object, [undefined] elsewhere.
    (On [null] and [undefined] JavaScript throws; every read below is
    guarded by [truthy] or made on an object.) *)
Definition get (v : value) (k : string) : value :=
  match v with
  | VObj m => default VUndefined (m !! k)
  | _ => VUndefined
  end.

(** [k in v] for own properties. *)
Definition has (v : value) (k : string) : bool :=
  match v with
  | VObj m => bool_decide (is_Some (m !! k))
  | _ => false
  end.

(** The own enumerable properties that [{ ...v }] copies. *)
Definition spread (v : value) : gmap string value :=
  match v with
  | VObj m => m
  | _ => ∅
  end.

(** [typeof v === 'object'] *)
Definition typeof_object (v : value) : bool :=
  match v with
  | VNull | VDate _ | VArr _ | VObj _ => true
  | _ => false
  end.

(** [a ?? b] *)
Definition nullish (a b : value) : value :=
  match a with
  | VUndefined | VNull => b
  | _ => a
  end.

End Js.
Export Js.

(** ** ramda *)

Module R.

(** [prop(p, obj)]: [undefined] on [null] and [undefined], [obj[p]]
    otherwise. *)
Definition prop (p : string) (obj : value) : value := get obj p.

(** [assoc(p, val, obj)]: a shallow copy of [obj] with [p] set. *)
Definition assoc (p : string) (val : value) (obj : value) : value :=
  VObj (<[p := val]> (spread obj)).

(** [assocPath(path, val, obj)] for a path of property names: the
    objects along the path are copied, or created where [obj] has
    none. *)
Fixpoint assocPath (path : list string) (val : value) (obj : value) : value :=
  match path with
  | [] => val
  | [idx] => assoc idx val obj
  | idx :: rest =>
      let nextObj :=
        if has obj idx && typeof_object (get obj idx)
        then get obj idx else VObj ∅ in
      assoc idx (assocPath rest val nextObj) obj
  end.

Definition transducer_reduced : string := "@@transducer/reduced".
Definition transducer_value : string := "@@transducer/value".

(** The check ramda's [reduce] makes on an accumulator, which the
    source copies into [maybeReducedError]:
    [x && x['@@transducer/reduced']]. *)
Definition isReduced (x : value) : bool :=
  truthy x && truthy (get x transducer_reduced).

(** [reduced(x)]: [x] itself when it already has the reduced shape,
    [x] wrapped otherwise. *)
Definition reduced (x : value) : value :=
  if isReduced x then x
  else VObj {[ transducer_value := x; transducer_reduced := VBool true ]}.

(** [reduce(f, acc, list)]. ramda stops early when an accumulator has
    the reduced shape; the accumulators of the evaluator are Asyncs,
    which never have it, so every element is visited. *)
Definition reduce {A B : Type} (f : A -> B -> A) (acc : A) (l : list B) : A :=
  fold_left f l acc.

End R.

(** ** The surroundings of an evaluation *)

(** One invocation of the handler: [handle(state, action, SWGlobal)]. *)
Record Call := mkCall {
  call_state : value;
  call_action : value;
  call_SWGlobal : value
}.

Record World := mkWorld {
  handled : list Call;      (* the handler invocations, oldest first *)
  saved : list value;       (* the records handed to saveEvaluation, oldest first *)
  clockReads : nat          (* how many times [new Date()] was evaluated *)
}.

Definition World0 : World := mkWorld [] [] 0.

(** ** hyper-async *)

Inductive Outcome (A : Type) : Type :=
  | rejected (e : value)
  | resolved (a : A).
Arguments rejected {A} e.
Arguments resolved {A} a.

(** An [Async] is run ("forked") once, from a world, and settles on one
    of its two arms. *)
Definition Async (A : Type) : Type := World -> Outcome A * World.

Module Async.

Definition Resolved {A} (x : A) : Async A := fun w => (resolved x, w).
Definition Rejected {A} (e : value) : Async A := fun w => (rejected e, w).
(** [of(x)] ([of] is a keyword of Rocq). *)
Definition of_ {A} (x : A) : Async A := Resolved x.

Definition chain {A B} (f : A -> Async B) (m : Async A) : Async B :=
  fun w =>
    match m w with
    | (resolved x, w1) => f x w1
    | (rejected e, w1) => (rejected e, w1)
    end.

Definition map {A B} (f : A -> B) (m : Async A) : Async B :=
  fun w =>
    match m w with
    | (resolved x, w1) => (resolved (f x), w1)
    | (rejected e, w1) => (rejected e, w1)
    end.

Definition bichain {A B} (l : value -> Async B) (r : A -> Async B)
    (m : Async A) : Async B :=
  fun w =>
    match m w with
    | (resolved x, w1) => r x w1
    | (rejected e, w1) => l e w1
    end.

Definition bimap {A B} (l : value -> value) (r : A -> B)
    (m : Async A) : Async B :=
  fun w =>
    match m w with
    | (resolved x, w1) => (resolved (r x), w1)
    | (rejected e, w1) => (rejected (l e), w1)
    end.

(** A function that returns a promise already is, here, a function
    that returns an Async: the promise's rejection is the left arm. *)
Definition fromPromise {A B} (f : A -> Async B) : A -> Async B := f.

(** [.map(f)] for an [f] that may throw: the exception leaves the
    pipeline and the caller's promise is rejected with it. *)
Definition mapThrowing {A B} (f : A -> value + B) (m : Async A) : Async B :=
  fun w =>
    match m w with
    | (resolved x, w1) =>
        match f x with
        | inr y => (resolved y, w1)
        | inl exn => (rejected exn, w1)
        end
    | (rejected e, w1) => (rejected e, w1)
    end.

End Async.
Import Async.

(** Method chaining: [m |> chain f |> map g] is [m.chain(f).map(g)]. *)
Notation "m |> f" := (f m) (at level 68, left associativity, only parsing).

(** ** What the evaluator is given *)

(** What the promise returned by [handle] settles to. The handler's
    output is an object; its properties are not restricted. *)
Inductive HandlerResult : Type :=
  | Trap (err : value)
  | Return (output : gmap string value).

Definition Handler : Type := value -> value -> value -> HandlerResult.

Definition ArrayBuffer : Type := list byte.

(** One element of [ctx.actions], see load-actions. *)
Record Interaction := mkInteraction {
  action : value;
  sortKey : value;
  SWGlobal : value
}.

Record Ctx := mkCtx {
  id : value;
  state : value;
  result : value;
  src : ArrayBuffer;
  actions : list Interaction
}.

(** [{ handle, ...ctx }] *)
Record CtxWithHandler := mkCtxWithHandler {
  handle : Handler;
  base : Ctx
}.

(** [assoc('output', __, ctx)] *)
Record Evaluated := mkEvaluated {
  ctx_of : Ctx;
  output : value
}.

(** The environment [evaluateWith] closes over, together with the two
    ambient capabilities the module uses.

    - [AoLoader] is [@permaweb/ao-loader]: it turns the wasm into the
      handler.
    - [saveEvaluation] is [saveEvaluationSchema.implement(env.saveEvaluation)]:
      from the records it was handed before and the record it is handed
      now, how its promise settles (a failed validation of the record
      against the schema of dal.js is a rejection like any other).
    - [now] is the wall clock: what the k-th evaluation of [new Date()]
      reads.
    - the logger only writes: [logger.tap(msg)] returns its argument. *)
Record Env := mkEnv {
  AoLoader : ArrayBuffer -> Handler;
  saveEvaluation : list value -> value -> Outcome value;
  now : nat -> Z
}.

Definition logger_tap (msg : string) (v : value) : value := v.

(** ** evaluate.js *)

Definition zodError : value :=
  VObj {[ "name" := VStr "ZodError" ]}.

(** [ctxSchema.parse]: [z.object({ output: z.record(z.any()) }).passthrough()].
    The output must be a plain object; the parsed context is the context. *)
Definition ctxSchema_parse (c : Evaluated) : value + Evaluated :=
  match output c with
  | VObj _ => inr c
  | _ => inl zodError
  end.

Definition addHandler (env : Env) (ctx : Ctx) : Async CtxWithHandler :=
  of_ (src ctx)
  |> map (AoLoader env)
  |> map (fun handle => mkCtxWithHandler handle ctx).

(** The promise [saveEvaluation(evaluation)]. *)
Definition saveEvaluation_call (env : Env) (evaluation : value) : Async value :=
  fun w =>
    (saveEvaluation env (saved w) evaluation,
     mkWorld (handled w) (saved w ++ [evaluation]) (clockReads w)).

Definition cacheEvaluationWith (env : Env) : value -> Async value :=
  fun evaluation =>
    of_ evaluation
    |> map (logger_tap "Caching evaluation %O")
    |> chain (fromPromise (saveEvaluation_call env)).

(** The promise [ctx.handle(state, action, SWGlobal)]. *)
Definition handle_call (h : Handler) (state action SWGlobal : value) : Async value :=
  fun w =>
    (match h state action SWGlobal with
     | Trap err => rejected err
     | Return out => resolved (VObj out)
     end,
     mkWorld (handled w ++ [mkCall state action SWGlobal]) (saved w) (clockReads w)).

(** [new Date()] *)
Definition newDate (env : Env) : World -> value * World :=
  fun w =>
    (VDate (now env (clockReads w)),
     mkWorld (handled w) (saved w) (S (clockReads w))).

Definition maybeReducedError (With : value -> Async value) (output : value)
    : Async value :=
  if R.isReduced output
  then With (get output R.transducer_value)
  else Resolved output.

Definition maybeResolveError := maybeReducedError Resolved.
Definition maybeRejectError := maybeReducedError Rejected.

(** [output.result && output.result.error] *)
Definition resultError (output : value) : bool :=
  truthy (get output "result") && truthy (get (get output "result") "error").

(** [{ state, ...output }] *)
Definition withState (state output : value) : value :=
  VObj (spread output ∪ {[ "state" := state ]}).

(** The record built for the cache. *)
Definition evaluationRecord (sortKey parent action output cachedAt : value)
    : value :=
  VObj {[ "sortKey" := sortKey;
          "parent" := parent;
          "action" := action;
          "output" := output;
          "cachedAt" := cachedAt ]}.

(** The reducer handed to [reduce]. *)
Definition reducer (env : Env) (ctx : CtxWithHandler)
    (dollar_output : Async value) (i : Interaction) : Async value :=
  let cacheEvaluation := cacheEvaluationWith env in
  dollar_output
  |> chain maybeRejectError
  |> map (R.prop "state")
  |> chain (fun state =>
       of_ state
       |> chain (fromPromise (fun state =>
            handle_call (handle ctx) state (action i) (SWGlobal i)))
       |> bichain
            (fun err => Resolved (R.assocPath ["result"; "error"] err (VObj ∅)))
            Resolved
       |> chain (fun output =>
            if resultError output
            then Rejected output
            else Resolved (withState state output)))
  |> bimap
       (logger_tap "Error occurred when applying interaction")
       (logger_tap "Applied interaction")
  |> chain (fun output w =>
       let (cachedAt, w1) := newDate env w in
       (cacheEvaluation
          (evaluationRecord (sortKey i) (id (base ctx)) (action i) output cachedAt)
        |> map (fun _ => output)) w1)
  |> bichain
       (fun err => Resolved (R.reduced err))
       Resolved.

Definition evaluateWith (env : Env) : Ctx -> Async Evaluated :=
  fun ctx =>
    of_ ctx
    |> chain (addHandler env)
    |> chain (fun ctx' =>
         R.reduce
           (reducer env ctx')
           (of_ (VObj {[ "state" := state (base ctx'); "result" := result (base ctx') ]}))
           (actions (base ctx')))
    |> chain maybeResolveError
    |> map (mkEvaluated ctx)
    |> mapThrowing ctxSchema_parse.

(** ** The reducer as a transition *)

(** The output the reducer works with once the handler's promise has
    settled: a trap is mapped to a [result.error]. *)
Definition settled (h : Handler) (state action SWGlobal : value) : value :=
  match h state action SWGlobal with
  | Trap err => R.assocPath ["result"; "error"] err (VObj ∅)
  | Return out => VObj out
  end.

Definition world_handle (w : World) (c : Call) : World :=
  mkWorld (handled w ++ [c]) (saved w) (clockReads w).

Definition world_save (w : World) (record : value) : World :=
  mkWorld (handled w) (saved w ++ [record]) (S (clockReads w)).

(** What one application of [reducer] does, read off the settled
    accumulator: [reducer_unfold] below proves it is the reducer. *)
Definition reducer_run (env : Env) (ctx : CtxWithHandler) (i : Interaction)
    (s : Outcome value * World) : Outcome value * World :=
  match s with
  | (rejected e, w) => (resolved (R.reduced e), w)
  | (resolved acc, w) =>
      if R.isReduced acc
      then (resolved (R.reduced (get acc R.transducer_value)), w)
      else
        let state := R.prop "state" acc in
        let w1 := world_handle w (mkCall state (action i) (SWGlobal i)) in
        let output := settled (handle ctx) state (action i) (SWGlobal i) in
        if resultError output
        then (resolved (R.reduced output), w1)
        else
          let output' := withState state output in
          let record :=
            evaluationRecord (sortKey i) (id (base ctx)) (action i) output'
              (VDate (now env (clockReads w1))) in
          match saveEvaluation env (saved w1) record with
          | rejected e => (resolved (R.reduced e), world_save w1 record)
          | resolved _ => (resolved output', world_save w1 record)
          end
  end.

(** Lines 161 to 163: unwrap, assign as output, parse. *)
Definition finish (ctx : Ctx) (s : Outcome value * World)
    : Outcome Evaluated * World :=
  match s with
  | (rejected e, w) => (rejected e, w)
  | (resolved acc, w) =>
      let out := if R.isReduced acc then get acc R.transducer_value else acc in
      match ctxSchema_parse (mkEvaluated ctx out) with
      | inr c => (resolved c, w)
      | inl exn => (rejected exn, w)
      end
  end.

(** The accumulator the reduction starts from. *)
Definition initial (ctx : Ctx) : value :=
  VObj {[ "state" := state ctx; "result" := result ctx ]}.

(** A record with its [cachedAt] left out. *)
Definition withoutCachedAt (record : value) : value :=
  match record with
  | VObj m => VObj (delete "cachedAt" m)
  | v => v
  end.

(** [{ handle, ...ctx }] as [addHandler] builds it. *)
Definition withHandler (env : Env) (ctx : Ctx) : CtxWithHandler :=
  mkCtxWithHandler (AoLoader env (src ctx)) ctx.


(** For the step that applies [i] to the accumulator [acc]: the handler
    invocation, the settled output, and the record built when the step
    succeeds in the world [w]. *)
Definition stepCall (acc : value) (i : Interaction) : Call :=
  mkCall (R.prop "state" acc) (action i) (SWGlobal i).

Definition stepOutput (ctx : CtxWithHandler) (acc : value) (i : Interaction)
    : value :=
  settled (handle ctx) (R.prop "state" acc) (action i) (SWGlobal i).

Definition stepRecord (env : Env) (ctx : CtxWithHandler) (acc : value)
    (i : Interaction) (w : World) : value :=
  evaluationRecord (sortKey i) (id (base ctx)) (action i)
    (withState (R.prop "state" acc) (stepOutput ctx acc i))
    (VDate (now env (clockReads w))).



(** The new state as the specification words it:
    [output.state ?? acc.state]. *)
Definition specNewState (output acc : value) : value :=
  nullish (get output "state") (get acc "state").

(** The cache does not look at [cachedAt]: on histories and records that
    agree on every other field, a save settles the same way. *)
Definition saveIgnoresCachedAt
    (save : list value -> value -> Outcome value) : Prop :=
  forall h1 h2 r1 r2,
    withoutCachedAt <$> h1 = withoutCachedAt <$> h2 ->
    withoutCachedAt r1 = withoutCachedAt r2 ->
    save h1 r1 = save h2 r2.

(** The fields of a record handed to [saveEvaluation]. *)
Definition recordFields : gset string :=
  {[ "sortKey"; "parent"; "action"; "output"; "cachedAt" ]}.

(** A record is an object of five fields; its parent is the id of the
    context. *)
Definition wellShaped (ctx : Ctx) (record : value) : Prop :=
  exists fields,
    record = VObj fields
    /\ dom fields = recordFields
    /\ fields !! "parent" = Some (id ctx).

(** Two settled reductions agree when they agree on the accumulator, on
    the handler invocations, and on the saved records up to [cachedAt]. *)
Definition agree (s1 s2 : Outcome value * World) : Prop :=
  fst s1 = fst s2
  /\ handled (snd s1) = handled (snd s2)
  /\ withoutCachedAt <$> saved (snd s1) = withoutCachedAt <$> saved (snd s2).

(** ** The reduction as a step relation *)

(** The four things one application of the reducer can do to a settled
    accumulator and its world, as [reducer_run] has them: skip the
    interaction because the accumulator is in the reduced shape; invoke
    the handler and fail; invoke the handler, succeed, and have the save
    rejected; invoke the handler, succeed and save. *)
Inductive step (env : Env) (ctx : CtxWithHandler) (i : Interaction)
    : value * World -> value * World -> Prop :=
  | step_skipped (acc : value) (w : World) :
      R.isReduced acc = true ->
      step env ctx i (acc, w) (R.reduced (get acc R.transducer_value), w)
  | step_failed (acc : value) (w : World) :
      R.isReduced acc = false ->
      resultError (stepOutput ctx acc i) = true ->
      step env ctx i (acc, w)
        (R.reduced (stepOutput ctx acc i), world_handle w (stepCall acc i))
  | step_save_rejected (acc : value) (w : World) (e : value) :
      R.isReduced acc = false ->
      resultError (stepOutput ctx acc i) = false ->
      saveEvaluation env (saved w) (stepRecord env ctx acc i w) = rejected e ->
      step env ctx i (acc, w)
        (R.reduced e,
         world_save (world_handle w (stepCall acc i)) (stepRecord env ctx acc i w))
  | step_succeeded (acc : value) (w : World) (r : value) :
      R.isReduced acc = false ->
      resultError (stepOutput ctx acc i) = false ->
      saveEvaluation env (saved w) (stepRecord env ctx acc i w) = resolved r ->
      step env ctx i (acc, w)
        (withState (R.prop "state" acc) (stepOutput ctx acc i),
         world_save (world_handle w (stepCall acc i)) (stepRecord env ctx acc i w)).

(** The state that the output stored in a record holds. *)
Definition recordState (record : value) : value :=
  get (get record "output") "state".

(** What identifies the interaction a record was built for, and the
    interaction a handler invocation was made for. *)
Definition recordOf (record : value) : value * value :=
  (get record "sortKey", get record "action").

Definition recordFor (i : Interaction) : value * value :=
  (sortKey i, action i).

Definition callOf (c : Call) : value * value :=
  (call_action c, call_SWGlobal c).

Definition callFor (i : Interaction) : value * value :=
  (action i, SWGlobal i).

(** A context with other interactions. *)
Definition withActions (ctx : Ctx) (l : list Interaction) : Ctx :=
  mkCtx (id ctx) (state ctx) (result ctx) (src ctx) l.



(** ** Scenarios *)

Module Scenario.

Definition clock (k : nat) : Z := 1700000000000 + Z.of_nat k.

Definition saveOk (history : list value) (record : value) : Outcome value :=
  resolved VUndefined.

Definition inc : value := VObj {[ "type" := VStr "inc" ]}.
Definition boom : value := VObj {[ "type" := VStr "boom" ]}.

Definition i1 : Interaction := mkInteraction inc (VStr "0001") (VObj ∅).
Definition i2 : Interaction := mkInteraction boom (VStr "0002") (VObj ∅).
Definition i3 : Interaction := mkInteraction inc (VStr "0003") (VObj ∅).

Definition S0 : value := VObj {[ "n" := VNum 0 ]}.
Definition S1 : value := VObj {[ "n" := VNum 1 ]}.

(** [inc] sets the state, [boom] returns an error. *)
Definition counter : Handler := fun state action SWGlobal =>
  match get action "type" with
  | VStr "inc" => Return {[ "state" := S1 ]}
  | _ => Return {[ "result" := VObj {[ "error" := VStr "boom" ]} ]}
  end.

Definition envWith (h : Handler) : Env := mkEnv (fun _ => h) saveOk clock.

Definition ctxOn (l : list Interaction) : Ctx :=
  mkCtx (VStr "process-1") S0 (VObj ∅) [] l.

(** The cache is down: every save is rejected with the same error. *)
Definition dbDown : value :=
  VObj {[ "name" := VStr "Error"; "message" := VStr "db down" ]}.

Definition saveDown (history : list value) (record : value) : Outcome value :=
  rejected dbDown.

Definition envDownWith (h : Handler) : Env := mkEnv (fun _ => h) saveDown clock.

(** A handler that hits [unreachable]. *)
Definition trapper : Handler := fun state action SWGlobal =>
  Trap (VStr "unreachable").


(** A handler that only produces messages, and no state. *)
Definition messenger : Handler := fun state action SWGlobal =>
  Return {[ "messages" := VArr [VStr "hello"] ]}.

(** A handler whose output has a state property that holds [null]. *)
Definition nuller : Handler := fun state action SWGlobal =>
  Return {[ "state" := VNull ]}.


(** A handler that fails, with an output that carries the marker ramda
    uses for a reduced accumulator. *)
Definition forged : value := VObj {[ "forged" := VBool true ]}.

Definition forger : Handler := fun state action SWGlobal =>
  Return {[ "result" := VObj {[ "error" := VStr "boom" ]};
            "@@transducer/reduced" := VBool true;
            "@@transducer/value" := forged ]}.

(** A handler that succeeds, with an output that carries the marker. *)
Definition marker : Handler := fun state action SWGlobal =>
  Return {[ "messages" := VArr [VStr "hello"];
            "@@transducer/reduced" := VBool true;
            "@@transducer/value" := forged ]}.

End Scenario.


(** * Properties *)

(** ** The pipeline, step by step *)

Create HintDb async discriminated.
#[local] Hint Unfold chain map bichain bimap fromPromise of_ Resolved Rejected
  mapThrowing cacheEvaluationWith saveEvaluation_call handle_call newDate
  logger_tap settled world_save world_handle addHandler : async.

(** Run the combinators of the pipeline in the goal. *)
Ltac run_async :=
  repeat progress (autounfold with async; cbn [handled saved clockReads base]).

Section Unfolding.

Context (env : Env).

Lemma maybeRejectError_run (acc : value) (w : World) :
  maybeRejectError acc w =
    if R.isReduced acc
    then (rejected (get acc R.transducer_value), w)
    else (resolved acc, w).
Proof.
  unfold maybeRejectError, maybeReducedError, Rejected, Resolved.
  now destruct (R.isReduced acc).
Qed.

Lemma maybeResolveError_run (acc : value) (w : World) :
  maybeResolveError acc w =
    (resolved (if R.isReduced acc then get acc R.transducer_value else acc), w).
Proof.
  unfold maybeResolveError, maybeReducedError, Resolved.
  now destruct (R.isReduced acc).
Qed.

(** One application of the reducer only looks at how the accumulator
    settles, and does what [reducer_run] says. *)
Lemma reducer_unfold (ctx : CtxWithHandler) (m : Async value)
    (i : Interaction) (w : World) :
  reducer env ctx m i w = reducer_run env ctx i (m w).
Proof.
  unfold reducer, reducer_run.
  run_async.
  destruct (m w) as [[e | acc] w1]; [reflexivity |].
  rewrite maybeRejectError_run.
  destruct (R.isReduced acc); [reflexivity |].
  run_async.
  destruct (handle ctx (R.prop "state" acc) (action i) (SWGlobal i))
    as [err | out]; run_async.
  - destruct (resultError _); [reflexivity |].
    run_async. now destruct (saveEvaluation env _ _).
  - destruct (resultError _); [reflexivity |].
    run_async. now destruct (saveEvaluation env _ _).
Qed.

Lemma reduce_unfold (ctx : CtxWithHandler) (l : list Interaction)
    (m : Async value) (w : World) :
  R.reduce (reducer env ctx) m l w =
    fold_left (fun s i => reducer_run env ctx i s) l (m w).
Proof.
  unfold R.reduce. revert m.
  induction l as [| i l IH]; intros m; [reflexivity |].
  cbn [fold_left]. rewrite IH. now rewrite reducer_unfold.
Qed.

Lemma evaluateWith_unfold (ctx : Ctx) (w : World) :
  evaluateWith env ctx w =
    finish ctx
      (fold_left
         (fun s i => reducer_run env (mkCtxWithHandler (AoLoader env (src ctx)) ctx) i s)
         (actions ctx) (resolved (initial ctx), w)).
Proof.
  unfold evaluateWith, finish.
  run_async.
  rewrite reduce_unfold. unfold initial.
  destruct (fold_left _ _ _) as [[e | acc] w1]; [reflexivity |].
  now rewrite maybeResolveError_run.
Qed.


End Unfolding.

(** ** The reduced marker *)

Lemma isReduced_reduced (x : value) : R.isReduced (R.reduced x) = true.
Proof.
  unfold R.reduced. destruct (R.isReduced x) eqn:E; [exact E | reflexivity].
Qed.

Lemma get_value_reduced (x : value) :
  R.isReduced x = false -> get (R.reduced x) R.transducer_value = x.
Proof. unfold R.reduced. intros ->. reflexivity. Qed.

Section Halting.

Context (env : Env) (ctx : CtxWithHandler).

(** Once the accumulator carries the marker, an application of the
    reducer touches nothing and leaves an accumulator that carries it. *)
Lemma reducer_run_marked (i : Interaction) (acc : value) (w : World) :
  R.isReduced acc = true ->
  reducer_run env ctx i (resolved acc, w) =
    (resolved (R.reduced (get acc R.transducer_value)), w).
Proof. unfold reducer_run. now intros ->. Qed.



End Halting.


(** ** One step that runs *)

Section Steps.

Context (env : Env) (ctx : CtxWithHandler).

(** The settled output is an object, whatever the handler did. *)
Lemma settled_object (h : Handler) (state action SWGlobal : value) :
  exists fields, settled h state action SWGlobal = VObj fields.
Proof.
  unfold settled. destruct (h state action SWGlobal) as [err | out]; eauto.
Qed.

(** A failing step: the handler is invoked, nothing else happens, and
    the output is wrapped for the short circuit. *)
Lemma reducer_run_failed (i : Interaction) (acc : value) (w : World) :
  R.isReduced acc = false ->
  resultError (stepOutput ctx acc i) = true ->
  reducer_run env ctx i (resolved acc, w) =
    (resolved (R.reduced (stepOutput ctx acc i)),
     world_handle w (stepCall acc i)).
Proof.
  unfold reducer_run, stepOutput, stepCall. intros -> Herr.
  cbn zeta. now rewrite Herr.
Qed.

(** A successful step: the handler is invoked, the record is handed to
    [saveEvaluation], and the save decides what is threaded on. *)
Lemma reducer_run_succeeded (i : Interaction) (acc : value) (w : World) :
  R.isReduced acc = false ->
  resultError (stepOutput ctx acc i) = false ->
  reducer_run env ctx i (resolved acc, w) =
    (match saveEvaluation env (saved w) (stepRecord env ctx acc i w) with
     | rejected e => resolved (R.reduced e)
     | resolved _ => resolved (withState (R.prop "state" acc) (stepOutput ctx acc i))
     end,
     world_save (world_handle w (stepCall acc i)) (stepRecord env ctx acc i w)).
Proof.
  unfold reducer_run, stepOutput, stepCall, stepRecord. intros -> Herr.
  cbn zeta. rewrite Herr. unfold world_handle at 1 2. cbn [saved clockReads].
  now destruct (saveEvaluation env _ _).
Qed.



(** An invariant of the transition is an invariant of the reduction. *)
Lemma fold_invariant (P : Outcome value * World -> Prop) :
  (forall i s, P s -> P (reducer_run env ctx i s)) ->
  forall l s, P s -> P (fold_left (fun s i => reducer_run env ctx i s) l s).
Proof.
  intros Hstep l. induction l as [| i l IH]; intros s Hs; [exact Hs |].
  cbn [fold_left]. apply IH, Hstep, Hs.
Qed.

End Steps.

(** [{ state, ...output }] reads back the state of the output when it
    has one, and the state it was given otherwise. *)
Lemma withState_state (state : value) (out : gmap string value) :
  R.prop "state" (withState state (VObj out)) =
    match out !! "state" with
    | Some v => v
    | None => state
    end.
Proof.
  unfold R.prop, withState, get, spread.
  rewrite lookup_union, lookup_singleton_eq.
  now destruct (out !! "state") as [v |].
Qed.

Lemma withState_absent (state : value) (out : gmap string value) :
  out !! "state" = None ->
  withState state (VObj out) = VObj (<["state" := state]> out).
Proof.
  intros Hout. unfold withState, spread.
  now rewrite insert_union_singleton_r.
Qed.

Lemma withState_has_state (state output : value) :
  has (withState state output) "state" = true.
Proof.
  unfold has, withState. apply bool_decide_eq_true.
  rewrite lookup_union, lookup_singleton_eq.
  destruct (spread output !! "state") as [v |]; cbn; eauto.
Qed.

Lemma finish_world (ctx : Ctx) (s : Outcome value * World) :
  snd (finish ctx s) = snd s.
Proof.
  destruct s as [[e | acc] w]; cbn [finish]; [reflexivity |].
  now destruct (ctxSchema_parse _).
Qed.

(** ** Error containment *)

Import Scenario.









(** The marker is in-band. The failing output of [forger] carries
    ['@@transducer/reduced'], the marker [maybeReducedError] looks for:
    [reduced] takes the output for an accumulator that is wrapped already,
    and the final unwrapping replaces the failing output by what its
    ['@@transducer/value'] holds. The step fails, the evaluation resolves,
    but its output is not the failing step's output. *)
Example marker_in_failing_output :
  resultError (stepOutput (withHandler (envWith forger) (ctxOn [i1; i3]))
                 (initial (ctxOn [i1; i3])) i1) = true
  /\ evaluateWith (envWith forger) (ctxOn [i1; i3]) World0 =
       (resolved (mkEvaluated (ctxOn [i1; i3]) forged),
        world_handle World0 (stepCall (initial (ctxOn [i1; i3])) i1))
  /\ stepOutput (withHandler (envWith forger) (ctxOn [i1; i3]))
       (initial (ctxOn [i1; i3])) i1 <> forged.
Proof.
  split; [reflexivity |]. split; [vm_compute; reflexivity |].
  intros H. apply (f_equal (fun v => has v "result")) in H.
  vm_compute in H. discriminate H.
Qed.






(** ** A save that rejects *)




(** ** The state that is carried forward *)

(** C5. A step that runs, whose handler returns an output without a
    [state] property and without an error: the output built by the step
    is the handler's output with [state] set to the previous state; this is the
    output stored in the record handed to [saveEvaluation], and, once the
    save resolves, the accumulator threaded on, whose state is the previous
    state. *)
Theorem absent_state_is_carried_forward (env : Env) (ctx : CtxWithHandler)
    (m : Async value) (i : Interaction) (w w1 : World) (acc : value)
    (out : gmap string value) :
  m w = (resolved acc, w1) ->
  R.isReduced acc = false ->
  handle ctx (R.prop "state" acc) (action i) (SWGlobal i) = Return out ->
  out !! "state" = None ->
  resultError (VObj out) = false ->
  let output' := VObj (<["state" := R.prop "state" acc]> out) in
  let record :=
    evaluationRecord (sortKey i) (id (base ctx)) (action i) output'
      (VDate (now env (clockReads w1))) in
  R.prop "state" output' = R.prop "state" acc
  /\ saved (snd (reducer env ctx m i w)) = saved w1 ++ [record]
  /\ get record "output" = output'
  /\ (forall r, saveEvaluation env (saved w1) record = resolved r ->
      fst (reducer env ctx m i w) = resolved output').
Proof.
  intros Hm Hacc Hout Hstate Hok output' record.
  assert (Hso : stepOutput ctx acc i = VObj out).
  { unfold stepOutput, settled. now rewrite Hout. }
  assert (Hrec : stepRecord env ctx acc i w1 = record).
  { unfold stepRecord. rewrite Hso, withState_absent by exact Hstate. reflexivity. }
  rewrite reducer_unfold, Hm, reducer_run_succeeded by (try rewrite Hso; assumption).
  rewrite Hrec, Hso, withState_absent by exact Hstate.
  repeat split.
  - unfold output', R.prop, get. now rewrite lookup_insert_eq.
  - intros r Hr. cbn [fst]. now rewrite Hr.
Qed.

Lemma absent_state_is_carried_forward_witness :
  let acc := initial (ctxOn [i1]) in
  let output' :=
    VObj {[ "state" := S0; "messages" := VArr [VStr "hello"] ]} in
  let record :=
    evaluationRecord (VStr "0001") (VStr "process-1") inc output'
      (VDate (clock 0)) in
  R.prop "state" output' = S0
  /\ saved (snd (reducer (envWith messenger) (withHandler (envWith messenger) (ctxOn [i1]))
                  (of_ acc) i1 World0))
     = [record]
  /\ get record "output" = output'
  /\ fst (reducer (envWith messenger) (withHandler (envWith messenger) (ctxOn [i1]))
            (of_ acc) i1 World0)
     = resolved output'.
Proof.
  destruct (absent_state_is_carried_forward (envWith messenger)
              (withHandler (envWith messenger) (ctxOn [i1])) (of_ (initial (ctxOn [i1]))) i1
              World0 World0 (initial (ctxOn [i1]))
              {[ "messages" := VArr [VStr "hello"] ]})
    as (Hstate & Hsaved & Hrecord & Hthreaded);
    [reflexivity | reflexivity | reflexivity | reflexivity | reflexivity |].
  split; [exact Hstate |]. split; [exact Hsaved |]. split; [exact Hrecord |].
  exact (Hthreaded VUndefined eq_refl).
Defined.

(** What a successful step whose save resolves threads on. *)
Lemma reducer_succeeded (env : Env) (ctx : CtxWithHandler)
    (m : Async value) (i : Interaction) (w w1 : World) (acc r : value) :
  m w = (resolved acc, w1) ->
  R.isReduced acc = false ->
  resultError (stepOutput ctx acc i) = false ->
  saveEvaluation env (saved w1) (stepRecord env ctx acc i w1) = resolved r ->
  reducer env ctx m i w =
    (resolved (withState (R.prop "state" acc) (stepOutput ctx acc i)),
     world_save (world_handle w1 (stepCall acc i)) (stepRecord env ctx acc i w1)).
Proof.
  intros Hm Hacc Hok Hsave.
  rewrite reducer_unfold, Hm, reducer_run_succeeded by assumption.
  now rewrite Hsave.
Qed.

(** C6, as stated, does not hold. The output of [nuller] has a [state]
    property that holds [null]: the spread overwrites the previous state
    with it, where [output.state ?? acc.state] keeps the previous state. *)
Lemma null_state_is_not_carried_forward :
  match
    reducer (envWith nuller) (withHandler (envWith nuller) (ctxOn [i1]))
      (of_ (initial (ctxOn [i1]))) i1 World0
  with
  | (resolved acc', _) =>
      R.prop "state" acc' = VNull
      /\ specNewState (VObj {[ "state" := VNull ]}) (initial (ctxOn [i1])) = S0
      /\ R.prop "state" acc'
         <> specNewState (VObj {[ "state" := VNull ]}) (initial (ctxOn [i1]))
  | (rejected _, _) => False
  end.
Proof.
  vm_compute. repeat split. intros H. discriminate H.
Qed.

(** C6, amended. For a successful step the accumulator threaded on is
    [{ state, ...output }]: its state is the value of the output's [state]
    property whenever the output has that property, be the value [null]
    or [undefined], and the previous state only when the output has no
    such property. *)
Theorem present_state_overwrites (env : Env) (ctx : CtxWithHandler)
    (m : Async value) (i : Interaction) (w w1 : World) (acc r : value)
    (out : gmap string value) :
  m w = (resolved acc, w1) ->
  R.isReduced acc = false ->
  handle ctx (R.prop "state" acc) (action i) (SWGlobal i) = Return out ->
  resultError (VObj out) = false ->
  saveEvaluation env (saved w1) (stepRecord env ctx acc i w1) = resolved r ->
  fst (reducer env ctx m i w)
    = resolved (withState (R.prop "state" acc) (VObj out))
  /\ R.prop "state" (withState (R.prop "state" acc) (VObj out))
     = match out !! "state" with
       | Some v => v
       | None => R.prop "state" acc
       end.
Proof.
  intros Hm Hacc Hout Hok Hsave.
  assert (Hso : stepOutput ctx acc i = VObj out).
  { unfold stepOutput, settled. now rewrite Hout. }
  split; [| apply withState_state].
  rewrite (reducer_succeeded env ctx m i w w1 acc r Hm Hacc); trivial.
  - now rewrite Hso.
  - now rewrite Hso.
Qed.

Lemma present_state_overwrites_witness :
  fst (reducer (envWith nuller) (withHandler (envWith nuller) (ctxOn [i1]))
         (of_ (initial (ctxOn [i1]))) i1 World0)
    = resolved (VObj {[ "state" := VNull ]})
  /\ R.prop "state" (VObj {[ "state" := VNull ]}) = VNull.
Proof.
  destruct (present_state_overwrites (envWith nuller)
              (withHandler (envWith nuller) (ctxOn [i1])) (of_ (initial (ctxOn [i1]))) i1
              World0 World0 (initial (ctxOn [i1])) VUndefined {[ "state" := VNull ]})
    as (Hthreaded & Hstate);
    [reflexivity | reflexivity | reflexivity | reflexivity | reflexivity |].
  split.
  - etransitivity; [exact Hthreaded | vm_compute; reflexivity].
  - etransitivity; [| exact Hstate]. vm_compute. reflexivity.
Defined.

(** ** No interactions *)




(** ** The records handed to the cache *)

Lemma evaluationRecord_wellShaped (ctx : Ctx) (k a o c : value) :
  wellShaped ctx (evaluationRecord k (id ctx) a o c).
Proof.
  unfold wellShaped, evaluationRecord. eexists. split; [reflexivity |].
  split; [| reflexivity].
  rewrite !dom_insert_L, dom_singleton_L. unfold recordFields. set_solver.
Qed.

(** Every record handed to [saveEvaluation] during the reduction is well
    shaped. *)
Lemma fold_saves_wellShaped (env : Env) (ctx : Ctx) (l : list Interaction)
    (s : Outcome value * World) (w : World) :
  (exists news, saved (snd s) = saved w ++ news /\ Forall (wellShaped ctx) news) ->
  exists news,
    saved (snd (fold_left (fun s i => reducer_run env (withHandler env ctx) i s) l s))
      = saved w ++ news
    /\ Forall (wellShaped ctx) news.
Proof.
  apply (fold_invariant env (withHandler env ctx)
           (fun s => exists news,
              saved (snd s) = saved w ++ news /\ Forall (wellShaped ctx) news)).
  clear s. intros i [[e | acc] w1] (news & Hs & Hn); cbn [snd] in *.
  - exists news. now split.
  - unfold reducer_run. destruct (R.isReduced acc); [exists news; now split |].
    cbn zeta. destruct (resultError _); [exists news; now split |].
    exists (news ++
      [evaluationRecord (sortKey i) (id ctx) (action i)
         (withState (R.prop "state" acc)
            (settled (AoLoader env (src ctx)) (R.prop "state" acc)
               (action i) (SWGlobal i)))
         (VDate (now env (clockReads w1)))]).
    split.
    + destruct (saveEvaluation env _ _); cbn [snd world_save world_handle saved];
        now rewrite Hs, <- app_assoc.
    + apply Forall_app. split; [exact Hn |].
      apply Forall_singleton, evaluationRecord_wellShaped.
Qed.

(** C9, as stated, does not hold. The record of the first interaction
    has no [processId] field: the id of the process is under [parent]. *)
Lemma saved_record_has_no_processId :
  match saved (snd (evaluateWith (envWith counter) (ctxOn [i1]) World0)) with
  | [record] =>
      has record "processId" = false
      /\ get record "parent" = VStr "process-1"
  | _ => False
  end.
Proof. vm_compute. split; reflexivity. Qed.

(** C9, amended. Every record handed to [saveEvaluation] by an evaluation
    is an object with exactly the fields sortKey, parent, action, output
    and cachedAt, and its parent is [ctx.id], the id of the process that
    is evaluated. *)
Theorem saved_records_shape (env : Env) (ctx : Ctx) (w : World) :
  exists news,
    saved (snd (evaluateWith env ctx w)) = saved w ++ news
    /\ Forall (wellShaped ctx) news.
Proof.
  rewrite evaluateWith_unfold, finish_world.
  apply fold_saves_wellShaped. exists []. cbn [snd].
  split; [now rewrite app_nil_r | constructor].
Qed.

(** ** Determinism *)

Lemma withoutCachedAt_record (k p a o c : value) :
  withoutCachedAt (evaluationRecord k p a o c) =
    VObj {[ "sortKey" := k; "parent" := p; "action" := a; "output" := o ]}.
Proof.
  reflexivity.
Qed.

Section TwoClocks.

Context (load : ArrayBuffer -> Handler)
        (save : list value -> value -> Outcome value)
        (now1 now2 : nat -> Z).
Context (Hsave : saveIgnoresCachedAt save).

Lemma reducer_run_agree (ctx : CtxWithHandler) (i : Interaction)
    (s1 s2 : Outcome value * World) :
  agree s1 s2 ->
  agree (reducer_run (mkEnv load save now1) ctx i s1)
        (reducer_run (mkEnv load save now2) ctx i s2).
Proof.
  destruct s1 as [o1 w1], s2 as [o2 w2]. unfold agree. cbn [fst snd].
  intros (<- & Hh & Hs). destruct o1 as [e | acc]; cbn [reducer_run].
  - now repeat split.
  - destruct (R.isReduced acc); [now repeat split |]. cbn zeta.
    destruct (resultError _).
    + cbn [fst snd world_handle handled saved]. now rewrite Hh.
    + cbn [saveEvaluation now world_handle saved clockReads].
      set (output' := withState _ _).
      set (r1 := evaluationRecord _ _ _ _ (VDate (now1 _))).
      set (r2 := evaluationRecord _ _ _ _ (VDate (now2 _))).
      assert (Hr : withoutCachedAt r1 = withoutCachedAt r2)
        by (unfold r1, r2; now rewrite !withoutCachedAt_record).
      rewrite (Hsave (saved w1) (saved w2) r1 r2 Hs Hr).
      assert (Hw : agree (resolved output', world_save (world_handle w1
                    (mkCall (R.prop "state" acc) (action i) (SWGlobal i))) r1)
                         (resolved output', world_save (world_handle w2
                    (mkCall (R.prop "state" acc) (action i) (SWGlobal i))) r2)).
      { unfold agree. cbn [fst snd world_save world_handle handled saved].
        rewrite !fmap_app, Hh, Hs. cbn [fmap list_fmap]. now rewrite Hr. }
      destruct Hw as (_ & Hh' & Hs').
      destruct (save (saved w2) r2); now repeat split.
Qed.

Lemma fold_agree (ctx : CtxWithHandler) (l : list Interaction)
    (s1 s2 : Outcome value * World) :
  agree s1 s2 ->
  agree (fold_left (fun s i => reducer_run (mkEnv load save now1) ctx i s) l s1)
        (fold_left (fun s i => reducer_run (mkEnv load save now2) ctx i s) l s2).
Proof.
  revert s1 s2. induction l as [| i l IH]; intros s1 s2 H; [exact H |].
  cbn [fold_left]. apply IH, reducer_run_agree, H.
Qed.

Lemma finish_agree (ctx : Ctx) (s1 s2 : Outcome value * World) :
  agree s1 s2 ->
  fst (finish ctx s1) = fst (finish ctx s2)
  /\ handled (snd (finish ctx s1)) = handled (snd (finish ctx s2))
  /\ withoutCachedAt <$> saved (snd (finish ctx s1))
     = withoutCachedAt <$> saved (snd (finish ctx s2)).
Proof.
  intros (Ho & Hh & Hs). rewrite !finish_world. repeat split; trivial.
  destruct s1 as [o1 w1], s2 as [o2 w2]. cbn [fst] in Ho. subst o2.
  destruct o1 as [e | acc]; cbn [finish]; [reflexivity |].
  now destruct (ctxSchema_parse _).
Qed.

End TwoClocks.

(** C8. Two runs of the evaluation of one context, with the same handler
    and the same cache, that read different clocks: the overall outcomes
    are identical, the handler is invoked on the same arguments in the same
    order, so no step's computation saw a [cachedAt], and the records
    handed to [saveEvaluation] are identical once [cachedAt] is left out.
    The cache is taken not to look at [cachedAt] when it settles a save. *)
Theorem deterministic_up_to_cachedAt
    (load : ArrayBuffer -> Handler)
    (save : list value -> value -> Outcome value)
    (now1 now2 : nat -> Z) (ctx : Ctx) (w : World) :
  saveIgnoresCachedAt save ->
  let run1 := evaluateWith (mkEnv load save now1) ctx w in
  let run2 := evaluateWith (mkEnv load save now2) ctx w in
  fst run1 = fst run2
  /\ handled (snd run1) = handled (snd run2)
  /\ withoutCachedAt <$> saved (snd run1) = withoutCachedAt <$> saved (snd run2).
Proof.
  intros Hsave run1 run2. unfold run1, run2.
  rewrite !evaluateWith_unfold. cbn [AoLoader].
  apply finish_agree, fold_agree; [exact Hsave |].
  now repeat split.
Qed.

Lemma deterministic_up_to_cachedAt_witness :
  let run1 :=
    evaluateWith (mkEnv (fun _ => counter) saveOk clock) (ctxOn [i1; i2; i3]) World0 in
  let run2 :=
    evaluateWith (mkEnv (fun _ => counter) saveOk (fun _ => 0)) (ctxOn [i1; i2; i3]) World0 in
  fst run1 = fst run2
  /\ handled (snd run1) = handled (snd run2)
  /\ withoutCachedAt <$> saved (snd run1) = withoutCachedAt <$> saved (snd run2).
Proof.
  apply (deterministic_up_to_cachedAt (fun _ => counter) saveOk clock (fun _ => 0)
           (ctxOn [i1; i2; i3]) World0).
  intros h1 h2 r1 r2 _ _. reflexivity.
Defined.

(** ** The state property of the outputs *)

(** The output a successful step builds has a [state] property: it is
    the accumulator handed to the next step and the output stored in the
    step's record. *)
Lemma successful_step_has_state (env : Env) (ctx : CtxWithHandler)
    (m : Async value) (i : Interaction) (w w1 : World) (acc r : value) :
  m w = (resolved acc, w1) ->
  R.isReduced acc = false ->
  resultError (stepOutput ctx acc i) = false ->
  saveEvaluation env (saved w1) (stepRecord env ctx acc i w1) = resolved r ->
  exists acc',
    fst (reducer env ctx m i w) = resolved acc'
    /\ has acc' "state" = true
    /\ get (stepRecord env ctx acc i w1) "output" = acc'.
Proof.
  intros Hm Hacc Hok Hsave.
  exists (withState (R.prop "state" acc) (stepOutput ctx acc i)).
  rewrite (reducer_succeeded env ctx m i w w1 acc r Hm Hacc Hok Hsave).
  repeat split. apply withState_has_state.
Qed.

(** Along the reduction the accumulator has a [state] property, or
    carries the reduced marker. *)
Lemma fold_state_or_marker (env : Env) (ctx : CtxWithHandler)
    (l : list Interaction) (acc : value) (w : World) :
  has acc "state" = true ->
  exists acc' w',
    fold_left (fun s i => reducer_run env ctx i s) l (resolved acc, w)
      = (resolved acc', w')
    /\ (has acc' "state" = true \/ R.isReduced acc' = true).
Proof.
  intros Hacc.
  apply (fold_invariant env ctx
           (fun s => exists acc' w',
              s = (resolved acc', w')
              /\ (has acc' "state" = true \/ R.isReduced acc' = true)));
    [| now eauto].
  intros i s (acc1 & w1 & -> & _). unfold reducer_run.
  destruct (R.isReduced acc1);
    [eexists _, _; split; [reflexivity | right; apply isReduced_reduced] |].
  cbn zeta. destruct (resultError _);
    [eexists _, _; split; [reflexivity | right; apply isReduced_reduced] |].
  destruct (saveEvaluation env _ _); eexists _, _; (split; [reflexivity |]).
  - right. apply isReduced_reduced.
  - left. apply withState_has_state.
Qed.

(** C10 fails on one input. The output of [marker] has no error, so the
    only step succeeds, and the output stored in its record has a [state]
    property. But the output carries ['@@transducer/reduced']: the final
    [maybeResolveError] takes the accumulator for a wrapped error and
    unwraps it, and the overall output of this evaluation, whose steps all
    succeeded, is what ['@@transducer/value'] held: it has no [state]. *)
Theorem marker_in_successful_output :
  resultError (stepOutput (withHandler (envWith marker) (ctxOn [i1]))
                 (initial (ctxOn [i1])) i1) = false
  /\ match evaluateWith (envWith marker) (ctxOn [i1]) World0 with
     | (resolved ev, w) =>
         output ev = forged
         /\ has (output ev) "state" = false
         /\ (fun r => has (get r "output") "state") <$> saved w = [true]
     | (rejected _, _) => False
     end.
Proof.
  split; [reflexivity |]. vm_compute. repeat split.
Qed.

(** * More of the evaluator *)

(** ** The step relation is the reducer *)

Lemma reducer_run_step (env : Env) (ctx : CtxWithHandler) (i : Interaction)
    (acc : value) (w : World) :
  exists acc' w',
    reducer_run env ctx i (resolved acc, w) = (resolved acc', w')
    /\ step env ctx i (acc, w) (acc', w').
Proof.
  destruct (R.isReduced acc) eqn:Hacc.
  - eexists _, _. split; [now apply reducer_run_marked | now constructor].
  - destruct (resultError (stepOutput ctx acc i)) eqn:Herr.
    + eexists _, _. rewrite reducer_run_failed by assumption.
      split; [reflexivity | now constructor].
    + rewrite reducer_run_succeeded by assumption.
      destruct (saveEvaluation env (saved w) (stepRecord env ctx acc i w))
        as [e | r] eqn:Hsave; eexists _, _; (split; [reflexivity |]).
      * now apply step_save_rejected.
      * now apply (step_succeeded env ctx i acc w r).
Qed.

(** Induction along the reduction, one interaction at a time: what holds
    of the start and is kept by every step holds of the reduction over the
    interactions seen so far. *)
Lemma reduction_ind (env : Env) (ctx : CtxWithHandler)
    (P : list Interaction -> value -> World -> Prop) (acc0 : value) (w0 : World) :
  P [] acc0 w0 ->
  (forall l i acc w acc' w',
      P l acc w -> step env ctx i (acc, w) (acc', w') -> P (l ++ [i]) acc' w') ->
  forall l, exists acc w,
    fold_left (fun s i => reducer_run env ctx i s) l (resolved acc0, w0)
      = (resolved acc, w)
    /\ P l acc w.
Proof.
  intros Hbase Hstep l. induction l as [| i l IH] using rev_ind.
  - exists acc0, w0. now split.
  - destruct IH as (acc & w & Hfold & HP).
    rewrite fold_left_app, Hfold. cbn [fold_left].
    destruct (reducer_run_step env ctx i acc w) as (acc' & w' & -> & Hs).
    exists acc', w'. split; [reflexivity |]. exact (Hstep l i acc w acc' w' HP Hs).
Qed.

Lemma initial_not_reduced (ctx : Ctx) : R.isReduced (initial ctx) = false.
Proof. reflexivity. Qed.


(** ** Which interactions are applied, and in which order *)

Lemma take_snoc_all {A : Type} (l : list A) (x : A) (n : nat) :
  n = length l -> take (S n) (l ++ [x]) = l ++ [x].
Proof. intros ->. apply take_ge. rewrite length_app. cbn. lia. Qed.

Lemma take_snoc_le {A : Type} (l : list A) (x : A) (n : nat) :
  (n <= length l)%nat -> take n (l ++ [x]) = take n l.
Proof. intros Hn. now apply take_app_le. Qed.

(** Close the conjuncts of an invariant after a step: by a hypothesis, by
    arithmetic on the lengths, or because the new accumulator is in the
    reduced shape. *)
Ltac close_step :=
  repeat match goal with |- _ /\ _ => split end;
  first
    [ assumption
    | reflexivity
    | rewrite ?length_app; cbn [length]; lia
    | let H := fresh in
      intros H; rewrite isReduced_reduced in H; discriminate H
    | intros _; rewrite ?length_app; cbn [length]; lia
    | idtac ].

(** X1. The records handed to [saveEvaluation] and the handler invocations
    of an evaluation follow the interactions of the context, in their
    order, from the first one and without a gap: the k records are those
    of the first k interactions (their sortKey and action), the handler
    invocations are those of the first k or k+1 interactions (their action
    and SWGlobal). The handler runs at most once per interaction, and at
    most one invocation is left without a record. *)
Theorem interactions_are_applied_in_order (env : Env) (ctx : Ctx) (w : World) :
  exists news calls,
    saved (snd (evaluateWith env ctx w)) = saved w ++ news
    /\ handled (snd (evaluateWith env ctx w)) = handled w ++ calls
    /\ recordOf <$> news = recordFor <$> take (length news) (actions ctx)
    /\ callOf <$> calls = callFor <$> take (length calls) (actions ctx)
    /\ (length news <= length calls <= S (length news))%nat
    /\ (length calls <= length (actions ctx))%nat.
Proof.
  rewrite evaluateWith_unfold, finish_world.
  destruct (reduction_ind env (mkCtxWithHandler (AoLoader env (src ctx)) ctx)
    (fun l acc w' => exists news calls,
       saved w' = saved w ++ news
       /\ handled w' = handled w ++ calls
       /\ recordOf <$> news = recordFor <$> take (length news) l
       /\ callOf <$> calls = callFor <$> take (length calls) l
       /\ (length news <= length calls <= S (length news))%nat
       /\ (length calls <= length l)%nat
       /\ (R.isReduced acc = false ->
           length news = length l /\ length calls = length l))
    (initial ctx) w) with (l := actions ctx) as (acc & w' & -> & HP).
  - exists [], []. rewrite !app_nil_r. cbn. repeat split; lia.
  - clear. intros l i acc w1 acc' w' (news & calls & Hs & Hh & Hn & Hc & Hlen & Hle & Hrun) Hstep.
    inversion Hstep as [a w2 Hacc | a w2 Hacc Herr | a w2 e Hacc Herr Hsave
                       | a w2 r Hacc Herr Hsave]; subst.
    + exists news, calls. rewrite !take_snoc_le by lia. close_step.
    + destruct (Hrun Hacc) as (Hln & Hlc).
      rewrite Hln, take_ge in Hn by lia. rewrite Hlc, take_ge in Hc by lia.
      exists news, (calls ++ [stepCall acc i]).
      cbn [snd world_handle saved handled]. rewrite Hh, <- app_assoc.
      rewrite (length_app calls). cbn [length]. rewrite Nat.add_1_r, Hln.
      rewrite take_snoc_le by lia. rewrite take_snoc_all by exact Hlc.
      rewrite take_ge by lia. rewrite !fmap_app, Hc. close_step.
    + destruct (Hrun Hacc) as (Hln & Hlc).
      rewrite Hln, take_ge in Hn by lia. rewrite Hlc, take_ge in Hc by lia.
      exists (news ++ [stepRecord env (withHandler env ctx) acc i w1]), (calls ++ [stepCall acc i]).
      cbn [snd world_save world_handle saved handled]. rewrite Hs, Hh, <- !app_assoc.
      rewrite (length_app calls), (length_app news). cbn [length]. rewrite !Nat.add_1_r.
      rewrite !take_snoc_all by assumption.
      rewrite !fmap_app, Hn, Hc. close_step.
    + destruct (Hrun Hacc) as (Hln & Hlc).
      rewrite Hln, take_ge in Hn by lia. rewrite Hlc, take_ge in Hc by lia.
      exists (news ++ [stepRecord env (withHandler env ctx) acc i w1]), (calls ++ [stepCall acc i]).
      cbn [snd world_save world_handle saved handled]. rewrite Hs, Hh, <- !app_assoc.
      rewrite (length_app calls), (length_app news). cbn [length]. rewrite !Nat.add_1_r.
      rewrite !take_snoc_all by assumption.
      rewrite !fmap_app, Hn, Hc. close_step.
  - destruct HP as (news & calls & Hs & Hh & Hn & Hc & Hlen & Hle & _).
    exists news, calls. cbn [snd]. repeat split; try assumption; lia.
Qed.

(** ** What the handler is given *)

Lemma take_init_last {A : Type} (l : list A) (x : A) (n : nat) :
  last l = Some x -> length l = S n -> take n l ++ [x] = l.
Proof.
  intros Hlast Hlen. apply last_Some in Hlast as [l' ->].
  rewrite length_app in Hlen. cbn in Hlen.
  replace n with (length l') by lia. now rewrite take_app_length.
Qed.

(** X2. The state the handler is invoked on is never anything but the
    state the evaluation started from or a state that was handed to the
    cache: the first invocation gets [ctx.state], and each later one gets
    the state of the output stored in the record of the interaction
    before it. *)
Theorem handler_is_given_the_cached_state (env : Env) (ctx : Ctx) (w : World) :
  exists news calls,
    saved (snd (evaluateWith env ctx w)) = saved w ++ news
    /\ handled (snd (evaluateWith env ctx w)) = handled w ++ calls
    /\ call_state <$> calls
       = take (length calls) (state ctx :: (recordState <$> news)).
Proof.
  rewrite evaluateWith_unfold, finish_world.
  destruct (reduction_ind env (mkCtxWithHandler (AoLoader env (src ctx)) ctx)
    (fun l acc w' => exists news calls,
       saved w' = saved w ++ news
       /\ handled w' = handled w ++ calls
       /\ call_state <$> calls
          = take (length calls) (state ctx :: (recordState <$> news))
       /\ (R.isReduced acc = false ->
           length calls = length news
           /\ last (state ctx :: (recordState <$> news))
              = Some (R.prop "state" acc)))
    (initial ctx) w) with (l := actions ctx) as (acc & w' & Hfold & HP).
  - exists [], []. rewrite !app_nil_r. now repeat split.
  - clear. intros l i acc w1 acc' w' (news & calls & Hs & Hh & Hc & Hrun) Hstep.
    inversion Hstep as [a w2 Hacc | a w2 Hacc Herr | a w2 e Hacc Herr Hsave
                       | a w2 r Hacc Herr Hsave]; subst.
    + exists news, calls. close_step.
    + destruct (Hrun Hacc) as (Hlen & Hlast).
      exists news, (calls ++ [stepCall acc i]).
      cbn [snd world_handle saved handled]. rewrite Hh, <- app_assoc.
      rewrite fmap_app, Hc, length_app. cbn [length fmap list_fmap stepCall call_state].
      rewrite Nat.add_1_r, (take_ge _ (S (length calls)))
        by (cbn [length]; rewrite length_fmap; lia).
      rewrite take_init_last
        by (first [exact Hlast | cbn [length]; rewrite length_fmap; lia]).
      close_step.
    + destruct (Hrun Hacc) as (Hlen & Hlast).
      exists (news ++ [stepRecord env (withHandler env ctx) acc i w1]),
             (calls ++ [stepCall acc i]).
      cbn [snd world_save world_handle saved handled]. rewrite Hs, Hh, <- !app_assoc.
      rewrite !fmap_app, Hc, length_app, app_comm_cons.
      cbn [length fmap list_fmap stepCall call_state]. rewrite Nat.add_1_r.
      rewrite take_init_last
        by (first [exact Hlast | cbn [length]; rewrite length_fmap; lia]).
      rewrite take_app_le, take_ge
        by (cbn [length]; rewrite length_fmap; lia).
      close_step.
    + destruct (Hrun Hacc) as (Hlen & Hlast).
      exists (news ++ [stepRecord env (withHandler env ctx) acc i w1]),
             (calls ++ [stepCall acc i]).
      cbn [snd world_save world_handle saved handled]. rewrite Hs, Hh, <- !app_assoc.
      rewrite !fmap_app, Hc, !length_app, app_comm_cons.
      cbn [length fmap list_fmap stepCall call_state]. rewrite Nat.add_1_r.
      rewrite take_init_last
        by (first [exact Hlast | cbn [length]; rewrite length_fmap; lia]).
      rewrite take_app_le, take_ge
        by (cbn [length]; rewrite length_fmap; lia).
      close_step. intros _. split; [lia |]. now rewrite last_snoc.
  - rewrite Hfold. destruct HP as (news & calls & Hs & Hh & Hc & _).
    exists news, calls. now repeat split.
Qed.

(** ** The clock *)

(** X3. [new Date()] is evaluated once for each record handed to
    [saveEvaluation] and at no other time (not for a failing step, not for
    an interaction that is skipped): the [cachedAt] of the k-th record of
    an evaluation is the k-th reading of the clock since it started. *)
Theorem clock_is_read_once_per_record (env : Env) (ctx : Ctx) (w : World) :
  exists news,
    saved (snd (evaluateWith env ctx w)) = saved w ++ news
    /\ clockReads (snd (evaluateWith env ctx w))
       = (clockReads w + length news)%nat
    /\ (fun r => get r "cachedAt") <$> news
       = (fun k => VDate (now env (clockReads w + k))) <$> seq 0 (length news).
Proof.
  rewrite evaluateWith_unfold, finish_world.
  destruct (reduction_ind env (mkCtxWithHandler (AoLoader env (src ctx)) ctx)
    (fun l acc w' => exists news,
       saved w' = saved w ++ news
       /\ clockReads w' = (clockReads w + length news)%nat
       /\ (fun r => get r "cachedAt") <$> news
          = (fun k => VDate (now env (clockReads w + k))) <$> seq 0 (length news))
    (initial ctx) w) with (l := actions ctx) as (acc & w' & -> & HP).
  - exists []. rewrite app_nil_r. cbn. repeat split. lia.
  - clear. intros l i acc w1 acc' w' (news & Hs & Hk & Hc) Hstep.
    assert (Hrecord :
      exists news',
        saved (world_save (world_handle w1 (stepCall acc i))
                 (stepRecord env (withHandler env ctx) acc i w1))
          = saved w ++ news'
        /\ clockReads (world_save (world_handle w1 (stepCall acc i))
                 (stepRecord env (withHandler env ctx) acc i w1))
           = (clockReads w + length news')%nat
        /\ (fun r => get r "cachedAt") <$> news'
           = (fun k => VDate (now env (clockReads w + k))) <$> seq 0 (length news')).
    { exists (news ++ [stepRecord env (withHandler env ctx) acc i w1]).
      cbn [world_save world_handle saved clockReads].
      rewrite Hs, Hk, <- app_assoc, length_app. cbn [length].
      rewrite Nat.add_1_r, seq_S, !fmap_app, Hc. cbn [fmap list_fmap].
      repeat split; [lia |]. unfold stepRecord. now rewrite Hk. }
    inversion Hstep; subst; cbn [snd]; try exact Hrecord.
    + exists news. now repeat split.
    + exists news. now repeat split.
  - exact HP.
Qed.

(** ** When the evaluation resolves *)

Lemma withState_get_other (state : value) (out : gmap string value) (k : string) :
  k <> "state" -> get (withState state (VObj out)) k = get (VObj out) k.
Proof.
  intros Hk. unfold withState, get, spread.
  rewrite lookup_union, lookup_singleton_ne by congruence.
  now destruct (out !! k).
Qed.

Lemma withState_not_reduced (state output : value) :
  truthy (get output R.transducer_reduced) = false ->
  R.isReduced (withState state output) = false.
Proof.
  intros Hout. unfold R.isReduced. cbn [truthy withState andb].
  destruct output; try reflexivity.
  now rewrite (withState_get_other state fields R.transducer_reduced).
Qed.

(** X4. The chain always resolves, as the source has it in a comment,
    under two conditions: no output of the handler carries a truthy
    ['@@transducer/reduced'], and when the cache rejects a save, it rejects
    it with an object that does not carry one either. Then whatever the
    handler and the cache do (trap, return errors, reject), the evaluation
    resolves, and its output is an object. *)
Theorem evaluation_always_resolves (env : Env) (ctx : Ctx) (w : World) :
  (forall state action SWGlobal,
      truthy (get (settled (AoLoader env (src ctx)) state action SWGlobal)
                R.transducer_reduced) = false) ->
  (forall history record e,
      saveEvaluation env history record = rejected e ->
      R.isReduced e = false /\ exists fields, e = VObj fields) ->
  exists out fields,
    fst (evaluateWith env ctx w) = resolved (mkEvaluated ctx out)
    /\ out = VObj fields.
Proof.
  intros Hhandler Hsave.
  rewrite evaluateWith_unfold.
  destruct (reduction_ind env (mkCtxWithHandler (AoLoader env (src ctx)) ctx)
    (fun l acc w' =>
       (R.isReduced acc = false /\ exists fields, acc = VObj fields)
       \/ (exists fields,
             acc = R.reduced (VObj fields) /\ R.isReduced (VObj fields) = false))
    (initial ctx) w) with (l := actions ctx) as (acc & w' & -> & HP).
  - left. split; [reflexivity | eexists; reflexivity].
  - intros l i acc w1 acc' w2 HP Hstep.
    inversion Hstep as [a w3 Hacc | a w3 Hacc Herr | a w3 e Hacc Herr Hrej
                       | a w3 r Hacc Herr Hres]; subst.
    + destruct HP as [[Hno _] | (fields & -> & Hfields)]; [congruence |].
      right. exists fields. now rewrite get_value_reduced.
    + right. unfold stepOutput. cbn [handle].
      destruct (settled_object (AoLoader env (src ctx)) (R.prop "state" acc)
                  (action i) (SWGlobal i)) as [fields Hfields].
      exists fields. rewrite Hfields. split; [reflexivity |].
      unfold R.isReduced. cbn [truthy andb]. rewrite <- Hfields. apply Hhandler.
    + right. destruct (Hsave _ _ _ Hrej) as (He & fields & ->).
      exists fields. now split.
    + left. split.
      * apply withState_not_reduced. apply Hhandler.
      * eexists. reflexivity.
  - unfold finish, ctxSchema_parse. cbn [output fst].
    destruct HP as [(-> & fields & ->) | (fields & -> & Hfields)].
    + now exists (VObj fields), fields.
    + rewrite isReduced_reduced, get_value_reduced by exact Hfields.
      now exists (VObj fields), fields.
Qed.

Lemma evaluation_always_resolves_witness :
  exists out fields,
    fst (evaluateWith (envDownWith trapper) (ctxOn [i1; i2; i3]) World0)
      = resolved (mkEvaluated (ctxOn [i1; i2; i3]) out)
    /\ out = VObj fields.
Proof.
  apply (evaluation_always_resolves (envDownWith trapper) (ctxOn [i1; i2; i3]) World0).
  - intros state action SWGlobal. reflexivity.
  - intros history record e H. injection H as <-.
    split; [reflexivity | eexists; reflexivity].
Defined.



(** ** Evaluating in pieces *)


Lemma fold_same_handler (env : Env) (c1 c2 : CtxWithHandler)
    (l : list Interaction) (s : Outcome value * World) :
  handle c1 = handle c2 ->
  id (base c1) = id (base c2) ->
  fold_left (fun s i => reducer_run env c1 i s) l s
    = fold_left (fun s i => reducer_run env c2 i s) l s.
Proof.
  intros Hh Hid. revert s. induction l as [| i l IH]; intros s; [reflexivity |].
  cbn [fold_left]. rewrite IH. f_equal.
  destruct s as [[e | acc] w]; [reflexivity |].
  unfold reducer_run. now rewrite Hh, Hid.
Qed.




Lemma fold_extends (env : Env) (ctx : CtxWithHandler) (l : list Interaction)
    (s : Outcome value * World) :
  saved (snd s)
    `prefix_of` saved (snd (fold_left (fun s i => reducer_run env ctx i s) l s))
  /\ handled (snd s)
    `prefix_of` handled (snd (fold_left (fun s i => reducer_run env ctx i s) l s)).
Proof.
  apply (fold_invariant env ctx
           (fun s' => saved (snd s) `prefix_of` saved (snd s')
                      /\ handled (snd s) `prefix_of` handled (snd s')));
    [| now split].
  intros i [[e | acc] w] (Hs & Hh); [now split |].
  destruct (reducer_run_step env ctx i acc w) as (acc' & w' & -> & Hstep).
  cbn [snd] in *.
  inversion Hstep; subst; cbn [world_save world_handle saved handled];
    split; trivial; (etransitivity; [eassumption | now apply prefix_app_r]).
Qed.

(** X7. Evaluating more interactions only adds to what evaluating fewer
    does: the records saved and the handler invocations made for the
    interactions [pre] are a prefix of those for [pre ++ post]. What
    comes later in the list never changes what is done for what comes
    before. *)
Theorem longer_evaluation_extends_the_shorter (env : Env) (ctx : Ctx)
    (pre post : list Interaction) (w : World) :
  saved (snd (evaluateWith env (withActions ctx pre) w))
    `prefix_of` saved (snd (evaluateWith env (withActions ctx (pre ++ post)) w))
  /\ handled (snd (evaluateWith env (withActions ctx pre) w))
    `prefix_of` handled (snd (evaluateWith env (withActions ctx (pre ++ post)) w)).
Proof.
  rewrite !evaluateWith_unfold, !finish_world.
  cbn [withActions actions src]. rewrite fold_left_app.
  rewrite (fold_same_handler env
             (mkCtxWithHandler (AoLoader env (src ctx))
                (mkCtx (id ctx) (state ctx) (result ctx) (src ctx) (pre ++ post)))
             (mkCtxWithHandler (AoLoader env (src ctx))
                (mkCtx (id ctx) (state ctx) (result ctx) (src ctx) pre))
             pre) by reflexivity.
  apply fold_extends.
Qed.

(** ** Wrapping and unwrapping *)

(** X8. What the reducer wraps to stop the reduction is what the two
    unwrappers give back: for a value that is not itself in the reduced
    shape, [maybeResolveError] resolves the wrapped value to it and
    [maybeRejectError] rejects with it, and both resolve the bare value to
    itself. *)
Theorem wrapped_error_is_unwrapped (x : value) (w : World) :
  R.isReduced x = false ->
  maybeResolveError (R.reduced x) w = (resolved x, w)
  /\ maybeRejectError (R.reduced x) w = (rejected x, w)
  /\ maybeResolveError x w = (resolved x, w)
  /\ maybeRejectError x w = (resolved x, w).
Proof.
  intros Hx.
  rewrite !maybeResolveError_run, !maybeRejectError_run.
  rewrite isReduced_reduced, get_value_reduced, Hx by exact Hx.
  now repeat split.
Qed.

Lemma wrapped_error_is_unwrapped_witness :
  maybeResolveError (R.reduced dbDown) World0 = (resolved dbDown, World0)
  /\ maybeRejectError (R.reduced dbDown) World0 = (rejected dbDown, World0)
  /\ maybeResolveError dbDown World0 = (resolved dbDown, World0)
  /\ maybeRejectError dbDown World0 = (resolved dbDown, World0).
Proof.
  apply (wrapped_error_is_unwrapped dbDown World0). reflexivity.
Defined.

(** ** What reaches the cache *)

Lemma withState_resultError (state : value) (out : gmap string value) :
  resultError (withState state (VObj out)) = resultError (VObj out).
Proof.
  unfold resultError. now rewrite withState_get_other by discriminate.
Qed.

(** X9. No failing output reaches the cache: the output stored in every
    record handed to [saveEvaluation] has no truthy [result.error], and it
    has a [state] property. *)
Theorem saved_outputs_are_successful (env : Env) (ctx : Ctx) (w : World) :
  exists news,
    saved (snd (evaluateWith env ctx w)) = saved w ++ news
    /\ Forall (fun record =>
                 resultError (get record "output") = false
                 /\ has (get record "output") "state" = true) news.
Proof.
  rewrite evaluateWith_unfold, finish_world.
  destruct (reduction_ind env (mkCtxWithHandler (AoLoader env (src ctx)) ctx)
    (fun l acc w' => exists news,
       saved w' = saved w ++ news
       /\ Forall (fun record =>
                    resultError (get record "output") = false
                    /\ has (get record "output") "state" = true) news)
    (initial ctx) w) with (l := actions ctx) as (acc & w' & -> & HP).
  - exists []. rewrite app_nil_r. now split.
  - clear. intros l i acc w1 acc' w' (news & Hs & Hn) Hstep.
    assert (Hrecord :
      resultError (stepOutput (withHandler env ctx) acc i) = false ->
      exists news',
        saved (world_save (world_handle w1 (stepCall acc i))
                 (stepRecord env (withHandler env ctx) acc i w1))
          = saved w ++ news'
        /\ Forall (fun record =>
                     resultError (get record "output") = false
                     /\ has (get record "output") "state" = true) news').
    { intros Herr.
      exists (news ++ [stepRecord env (withHandler env ctx) acc i w1]).
      cbn [world_save world_handle saved]. rewrite Hs, <- app_assoc.
      split; [reflexivity |]. apply Forall_app. split; [exact Hn |].
      apply Forall_singleton.
      change (get (stepRecord env (withHandler env ctx) acc i w1) "output")
        with (withState (R.prop "state" acc) (stepOutput (withHandler env ctx) acc i)).
      split; [| apply withState_has_state].
      unfold stepOutput in *.
      destruct (settled_object (handle (withHandler env ctx)) (R.prop "state" acc)
                  (action i) (SWGlobal i)) as [fields Hfields].
      rewrite Hfields in *. now rewrite withState_resultError. }
    inversion Hstep; subst; cbn [snd]; try (now apply Hrecord).
    + exists news. now split.
    + exists news. now split.
  - exact HP.
Qed.
